(** * zoobuskids: a bus-fleet model handed to an optimisation engine

    A shallow embedding of [cplex/cpp/zoobuskids.cpp].  The program builds a
    two-variable integer model (how many 40-seat and 30-seat buses carry 300
    kids at the least cost), asks the engine to solve it, prints three lines
    and releases the environment.

    What belongs to the program is embedded as it is written: the objects it
    builds, the order of its statements, its [try]/[catch]/[throw;] and its
    insertions into [cout] and [cerr].  What belongs to the Concert/CPLEX
    library is a parameter, the record [Engine]: which library call throws,
    and which solution (if any) [solve] leaves behind.

    Numbers.  The [double] costs 500 and 400 and every value the program
    computes from them are integers far below 2^53, on which [double]
    arithmetic is exact; they are integers ([Z]) here.  An insertion into a
    stream is recorded as a token, not rendered to characters.

    Streams.  [cout] and [cerr] are what [main] inserts into them; what the
    engine may write to a log channel of its own is not part of the model. *)

From Stdlib Require Import ZArith List String Bool Lia.
Import ListNotations.
Local Open Scope string_scope.
Local Open Scope list_scope.
Local Open Scope Z_scope.

(** ** Concert objects *)

(** [IloException]: the library's exception, with the text [operator<<]
    prints for it. *)
Inductive IloException : Type :=
| IloExc (message : string).

(** [IloInfinity] as an upper bound: no finite bound. *)
Definition IloInfinity : option Z := None.

(** [IloIntVar(env, vmin, vmax, name)].  [var_id] is the identity of the
    handle: two variables are the same when they are the same object, the
    name is a label. *)
Record IloIntVar : Type := mkIntVar {
  var_id : nat;
  var_lb : Z;
  var_ub : option Z;
  var_name : string
}.

(** [IloExpr]: what [operator*] and [operator+] build from numbers and
    variables. *)
Inductive IloExpr : Type :=
| ENum (c : Z)
| EVar (x : IloIntVar)
| EMul (c : Z) (e : IloExpr)
| EAdd (e1 e2 : IloExpr).

Inductive Sense : Type := Minimize | Maximize.

(** What [model.add] accepts here: an objective ([IloMinimize(env, e)]) or a
    range [lb <= e <= ub] ([e >= n] is the range with no upper bound). *)
Inductive IloExtractable : Type :=
| IloObjective (sense : Sense) (e : IloExpr)
| IloRange (lb : option Z) (e : IloExpr) (ub : option Z).

(** [IloModel]: the extractables added so far, in the order of the [add]
    calls. *)
Definition IloModel : Type := list IloExtractable.

Definition IloMinimize (e : IloExpr) : IloExtractable := IloObjective Minimize e.

Declare Scope ilo_scope.
Delimit Scope ilo_scope with ilo.
Notation "c *: x" := (EMul c (EVar x)) (at level 40, no associativity) : ilo_scope.
Notation "e1 +: e2" := (EAdd e1 e2) (at level 50, left associativity) : ilo_scope.
Notation "e >=: n" := (IloRange (Some n) e IloInfinity) (at level 70, no associativity) : ilo_scope.

(** ** Meaning of a model *)

(** A solution gives every variable (by identity) an integer. *)
Definition Assignment : Type := nat -> Z.

Fixpoint eval (s : Assignment) (e : IloExpr) : Z :=
  match e with
  | ENum c => c
  | EVar x => s (var_id x)
  | EMul c e' => c * eval s e'
  | EAdd e1 e2 => eval s e1 + eval s e2
  end.

Fixpoint expr_vars (e : IloExpr) : list IloIntVar :=
  match e with
  | ENum _ => []
  | EVar x => [x]
  | EMul _ e' => expr_vars e'
  | EAdd e1 e2 => expr_vars e1 ++ expr_vars e2
  end.

Definition extractable_vars (x : IloExtractable) : list IloIntVar :=
  match x with
  | IloObjective _ e => expr_vars e
  | IloRange _ e _ => expr_vars e
  end.

(** The variables the engine extracts: those the model's objective and
    constraints mention. *)
Definition model_vars (m : IloModel) : list IloIntVar :=
  flat_map extractable_vars m.

Definition above (lb : option Z) (z : Z) : bool :=
  match lb with Some l => l <=? z | None => true end.

Definition below (ub : option Z) (z : Z) : bool :=
  match ub with Some u => z <=? u | None => true end.

(** The domain of a variable: the integers between its bounds. *)
Definition in_domain (x : IloIntVar) (z : Z) : bool :=
  (var_lb x <=? z) && below (var_ub x) z.

Definition holds (s : Assignment) (x : IloExtractable) : bool :=
  match x with
  | IloObjective _ _ => true
  | IloRange lb e ub => above lb (eval s e) && below ub (eval s e)
  end.

Definition feasible (m : IloModel) (s : Assignment) : bool :=
  forallb (fun x => in_domain x (s (var_id x))) (model_vars m)
  && forallb (holds s) m.

(** The objective of a model: the first one added. *)
Fixpoint objective (m : IloModel) : option (Sense * IloExpr) :=
  match m with
  | [] => None
  | IloObjective d e :: _ => Some (d, e)
  | IloRange _ _ _ :: m' => objective m'
  end.

Definition no_worse (d : Sense) (v v' : Z) : Prop :=
  match d with
  | Minimize => v <= v'
  | Maximize => v' <= v
  end.

(** [s] is an optimal solution of [m]. *)
Definition optimal (m : IloModel) (s : Assignment) : Prop :=
  feasible m s = true /\
  match objective m with
  | Some (d, e) =>
      forall s', feasible m s' = true -> no_worse d (eval s e) (eval s' e)
  | None => True
  end.

(** ** The library as a parameter *)

(** One execution's worth of library behaviour.
    - [fault k]: the exception the [k]-th library call of the run throws, if
      it throws one (any Concert or CPLEX call may);
    - [solve_result m]: the solution [solve] leaves in the [IloCplex] object
      for the extracted model [m]; [None] when it finds none (infeasible,
      unbounded, stopped by an error) and returns [IloFalse];
    - [no_solution]: the exception [getValue] throws when there is no
      solution to read. *)
Record Engine : Type := mkEngine {
  fault : nat -> option IloException;
  solve_result : IloModel -> option Assignment;
  no_solution : IloException
}.

(** The engine answers the model [m] correctly when a solution it returns is
    an optimal one. *)
Definition sound_on (E : Engine) (m : IloModel) : Prop :=
  forall s, solve_result E m = Some s -> optimal m s.

(** In [cout << "Use " << cplex.getValue(x) << ...] the language fixes the
    order of the insertion of ["Use "] and the call of [getValue] only since
    C++17 (stream first); before, the operand may be evaluated first. *)
Inductive EvalOrder : Type := StreamFirst | OperandFirst.

(** ** Effects *)

(** What is inserted into a stream. *)
Inductive tok : Type :=
| TStr (s : string)
| TNum (z : Z)
| TExc (e : IloException)
| TEndl.

(** What an execution does that can be observed. *)
Inductive event : Type :=
| EvOut (t : tok)              (* cout << t *)
| EvErr (t : tok)              (* cerr << t *)
| EvSolve                      (* cplex.solve() is called *)
| EvSolved (found : bool)      (* cplex.solve() returns IloTrue or IloFalse *)
| EvCatch (e : IloException)   (* a handler is entered *)
| EvEnvEnd.                    (* env.end() *)

Record World : Type := mkWorld {
  calls : nat;          (* library calls made so far *)
  fresh : nat;          (* next variable identity of the IloEnv *)
  trace : list event    (* oldest first *)
}.

Definition world0 : World := {| calls := 0; fresh := 0; trace := [] |}.

Inductive Res (A : Type) : Type :=
| Ok (a : A)
| Thrown (e : IloException).
Arguments Ok {A} a.
Arguments Thrown {A} e.

(** State and exceptions; what was done before a [throw] stays done. *)
Definition M (A : Type) : Type := World -> World * Res A.

Definition ret {A} (a : A) : M A := fun w => (w, Ok a).

Definition bind {A B} (c : M A) (k : A -> M B) : M B :=
  fun w =>
    match c w with
    | (w', Ok a) => k a w'
    | (w', Thrown e) => (w', Thrown e)
    end.

Definition throw {A} (e : IloException) : M A := fun w => (w, Thrown e).

Definition emit (ev : event) : M unit :=
  fun w => ({| calls := calls w; fresh := fresh w; trace := trace w ++ [ev] |}, Ok tt).

(** [try { body } catch (IloException &e) { handler }] *)
Definition try_catch {A} (body : M A) (handler : IloException -> M A) : M A :=
  fun w =>
    match body w with
    | (w', Ok a) => (w', Ok a)
    | (w', Thrown e) => bind (emit (EvCatch e)) (fun _ => handler e) w'
    end.

Declare Scope prog_scope.
Delimit Scope prog_scope with prog.
Notation "x <- c ;; k" := (bind c (fun x => k))
  (at level 100, c at next level, right associativity) : prog_scope.
Notation "c ;; k" := (bind c (fun _ => k))
  (at level 100, right associativity) : prog_scope.
Local Open Scope prog_scope.

Definition cout (t : tok) : M unit := emit (EvOut t).
Definition cerr (t : tok) : M unit := emit (EvErr t).

Fixpoint cout_all (ts : list tok) : M unit :=
  match ts with
  | [] => ret tt
  | t :: ts' => cout t ;; cout_all ts'
  end.

(** [IloCplex]: the extracted model and the solution of the last [solve]. *)
Record IloCplex : Type := mkCplex {
  extracted : IloModel;
  incumbent : option Assignment
}.

Definition is_some {A} (o : option A) : bool :=
  match o with Some _ => true | None => false end.

Section Program.

Variable E : Engine.
Variable ord : EvalOrder.

(** A call into the library: it throws when the engine says so. *)
Definition ilo_call : M unit :=
  fun w =>
    let w' := {| calls := S (calls w); fresh := fresh w; trace := trace w |} in
    match fault E (calls w) with
    | Some e => (w', Thrown e)
    | None => (w', Ok tt)
    end.

Definition new_id : M nat :=
  fun w => ({| calls := calls w; fresh := S (fresh w); trace := trace w |}, Ok (fresh w)).

Definition IloModel_new : M IloModel :=
  ilo_call ;; ret [].

Definition IloIntVar_new (vmin : Z) (vmax : option Z) (name : string) : M IloIntVar :=
  ilo_call ;;
  i <- new_id ;;
  ret {| var_id := i; var_lb := vmin; var_ub := vmax; var_name := name |}.

Definition IloExpr_new (e : IloExpr) : M IloExpr :=
  ilo_call ;; ret e.

Definition IloModel_add (m : IloModel) (x : IloExtractable) : M IloModel :=
  ilo_call ;; ret (m ++ [x]).

Definition IloCplex_new (m : IloModel) : M IloCplex :=
  ilo_call ;; ret {| extracted := m; incumbent := None |}.

(** [cplex.solve()]: [IloTrue] when a solution was found. *)
Definition IloCplex_solve (c : IloCplex) : M (bool * IloCplex) :=
  emit EvSolve ;;
  ilo_call ;;
  let r := solve_result E (extracted c) in
  emit (EvSolved (is_some r)) ;;
  ret (is_some r, {| extracted := extracted c; incumbent := r |}).

(** [cplex.getValue(e)]: the value of [e] in the solution; throws when there
    is none. *)
Definition IloCplex_getValue (c : IloCplex) (e : IloExpr) : M Z :=
  ilo_call ;;
  match incumbent c with
  | Some s => ret (eval s e)
  | None => throw (no_solution E)
  end.

Definition IloEnv_end : M unit := emit EvEnvEnd.

(** [cout << pre << cplex.getValue(e) << rest...] *)
Definition cout_value (c : IloCplex) (pre : string) (e : IloExpr) (rest : list tok) : M unit :=
  match ord with
  | StreamFirst =>
      cout (TStr pre) ;;
      v <- IloCplex_getValue c e ;;
      cout (TNum v) ;;
      cout_all rest
  | OperandFirst =>
      v <- IloCplex_getValue c e ;;
      cout (TStr pre) ;;
      cout (TNum v) ;;
      cout_all rest
  end.

(** ** The program *)

(** The model builder: the statements of [main] from [IloModel model(env)]
    to the second [model.add].  [nbKids] is the local [int nbKids = 300],
    kept as an argument. *)
Definition build (nbKids : Z) : M (IloModel * IloIntVar * IloIntVar * IloExpr) :=
  model <- IloModel_new ;;
  let costBus40 := 500 in
  let costBus30 := 400 in
  nbBus40 <- IloIntVar_new 0 IloInfinity "nbBus40" ;;
  nbBus30 <- IloIntVar_new 0 IloInfinity "nbBus30" ;;
  cost <- IloExpr_new (costBus40 *: nbBus40 +: costBus30 *: nbBus30)%ilo ;;
  model <- IloModel_add model (IloMinimize cost) ;;
  model <- IloModel_add model (40 *: nbBus40 +: 30 *: nbBus30 >=: nbKids)%ilo ;;
  ret (model, nbBus40, nbBus30, cost).

(** The body of the [try] block.  The [IloBool] that [cplex.solve()]
    returns is not looked at: the three [getValue] calls follow in any
    case, and [env.end()] is the last statement of the block. *)
Definition main_try (nbKids : Z) : M unit :=
  built <- build nbKids ;;
  let '(model, nbBus40, nbBus30, cost) := built in
  cplex <- IloCplex_new model ;;
  solved <- IloCplex_solve cplex ;;
  let cplex := snd solved in
  cout_value cplex "Use " (EVar nbBus40) [TStr " buses of type 40"; TEndl] ;;
  cout_value cplex "Use " (EVar nbBus30) [TStr " buses of type 30"; TEndl] ;;
  cout_value cplex "Total cost: " cost [TEndl] ;;
  IloEnv_end.

(** The handler: [cerr << "exception: " << e << endl; throw;] *)
Definition main_catch (e : IloException) : M unit :=
  cerr (TStr "exception: ") ;;
  cerr (TExc e) ;;
  cerr TEndl ;;
  throw e.

(** [try { ... } catch (IloException &e) { ... } return 0;] *)
Definition main_body (nbKids : Z) : M Z :=
  try_catch (main_try nbKids) main_catch ;;
  ret 0.

End Program.

(** How the process ends: [main] returns a code, or an exception leaves
    [main], [std::terminate] is called and the process is aborted. *)
Inductive Exit : Type :=
| Returned (code : Z)
| Terminated (e : IloException).

Record Run : Type := mkRun {
  final : World;
  status : Exit
}.

Definition run (E : Engine) (ord : EvalOrder) (nbKids : Z) : Run :=
  match main_body E ord nbKids world0 with
  | (w, Ok code) => {| final := w; status := Returned code |}
  | (w, Thrown e) => {| final := w; status := Terminated e |}
  end.

(** [main], with [int nbKids = 300]. *)
Definition main (E : Engine) (ord : EvalOrder) : Run := run E ord 300.

(** ** What is observed of a run *)

Definition out_of (ev : event) : list tok :=
  match ev with EvOut t => [t] | _ => [] end.

Definition err_of (ev : event) : list tok :=
  match ev with EvErr t => [t] | _ => [] end.

Definition is_end (ev : event) : bool :=
  match ev with EvEnvEnd => true | _ => false end.

Definition is_solve (ev : event) : bool :=
  match ev with EvSolve => true | _ => false end.

Definition is_solved (ev : event) : bool :=
  match ev with EvSolved true => true | _ => false end.

Definition is_catch (ev : event) : bool :=
  match ev with EvCatch _ => true | _ => false end.

Definition is_out (ev : event) : bool :=
  match ev with EvOut _ => true | _ => false end.

Definition is_err (ev : event) : bool :=
  match ev with EvErr _ => true | _ => false end.

Definition events (r : Run) : list event := trace (final r).

Definition stdout (r : Run) : list tok := flat_map out_of (events r).
Definition stderr (r : Run) : list tok := flat_map err_of (events r).

(** [solve] was called; it returned [IloTrue]; it was called and did not
    (it threw, or returned [IloFalse]). *)
Definition solve_called (r : Run) : bool := existsb is_solve (events r).
Definition solve_succeeded (r : Run) : bool := existsb is_solved (events r).
Definition solve_failed (r : Run) : bool := solve_called r && negb (solve_succeeded r).

(** The status the parent process sees is not 0. *)
Definition failure (x : Exit) : bool :=
  match x with
  | Returned code => negb (code =? 0)
  | Terminated _ => true
  end.

(** [env.end()] was called. *)
Definition env_ended (r : Run) : bool := existsb is_end (events r).

Definition count (p : event -> bool) (l : list event) : nat :=
  List.length (filter p l).

(** The events from the first entry into a handler on. *)
Fixpoint from_catch (l : list event) : list event :=
  match l with
  | [] => []
  | EvCatch e :: l' => EvCatch e :: l'
  | _ :: l' => from_catch l'
  end.

Definition is_endl (t : tok) : bool :=
  match t with TEndl => true | _ => false end.

Definition is_num (t : tok) : bool :=
  match t with TNum _ => true | _ => false end.

(** The lines of a stream: [acc] is the line being written; a line is
    complete at its [endl]. *)
Fixpoint lines_from (acc : list tok) (ts : list tok) : list (list tok) * list tok :=
  match ts with
  | [] => ([], acc)
  | TEndl :: ts' => let (ls, rest) := lines_from [] ts' in (acc :: ls, rest)
  | t :: ts' => lines_from (acc ++ [t]) ts'
  end.

Definition lines (ts : list tok) : list (list tok) := fst (lines_from [] ts).

(** The three lines of the reporter, for the values [a], [b] and [c]. *)
Definition line40 (a : Z) : list tok := [TStr "Use "; TNum a; TStr " buses of type 40"].
Definition line30 (b : Z) : list tok := [TStr "Use "; TNum b; TStr " buses of type 30"].
Definition line_cost (c : Z) : list tok := [TStr "Total cost: "; TNum c].

Definition report (a b c : Z) : list tok :=
  line40 a ++ [TEndl] ++ line30 b ++ [TEndl] ++ line_cost c ++ [TEndl].

(** ** The model of the program *)

(** An engine in which no call throws; it serves to run the builder. *)
Definition quiet : Engine :=
  {| fault := fun _ => None;
     solve_result := fun _ => None;
     no_solution := IloExc EmptyString |}.

Definition built (nbKids : Z) : option (IloModel * IloIntVar * IloIntVar * IloExpr) :=
  match build quiet nbKids world0 with
  | (_, Ok b) => Some b
  | (_, Thrown _) => None
  end.

(** The model [main] hands to the engine, its two variables and its cost
    expression. *)
Definition zoo_model (nbKids : Z) : IloModel :=
  match built nbKids with Some (m, _, _, _) => m | None => [] end.

Definition zoo_vars (nbKids : Z) : list IloIntVar :=
  match built nbKids with Some (_, x, y, _) => [x; y] | None => [] end.

Definition zoo_cost (nbKids : Z) : IloExpr :=
  match built nbKids with Some (_, _, _, c) => c | None => ENum 0 end.

(** The solution that uses [a] buses of 40 seats and [b] of 30 (the
    variables are the first two objects of the environment). *)
Definition counts (a b : Z) : Assignment :=
  fun i => match i with O => a | S O => b | _ => 0 end.

(** An engine in which no call throws and [solve] leaves [s]. *)
Definition answering (s : Assignment) : Engine :=
  {| fault := fun _ => None;
     solve_result := fun _ => Some s;
     no_solution := IloExc "no solution" |}.

(** An engine whose [k]-th call throws [e]. *)
Definition failing_at (k : nat) (e : IloException) (r : option Assignment) : Engine :=
  {| fault := fun i => if Nat.eqb i k then Some e else None;
     solve_result := fun _ => r;
     no_solution := IloExc "no solution" |}.

(** Engines in which the [IloCplex] constructor (call 6) or [solve]
    (call 7) runs out of memory. *)
Definition out_of_memory : IloException := IloExc "CPLEX Error  1001: Out of memory.".
Definition extract_throws : Engine := failing_at 6 out_of_memory None.
Definition solve_throws : Engine := failing_at 7 out_of_memory None.

(** An engine that finds the model infeasible. *)
Definition finding_none : Engine :=
  {| fault := fun _ => None;
     solve_result := fun _ => None;
     no_solution := IloExc "no solution" |}.

Definition x40 : IloIntVar := {| var_id := 0; var_lb := 0; var_ub := None; var_name := "nbBus40" |}.
Definition x30 : IloIntVar := {| var_id := 1; var_lb := 0; var_ub := None; var_name := "nbBus30" |}.

(** The exception that leaves the [try] block, if one does. *)
Definition raised (E : Engine) (ord : EvalOrder) (nbKids : Z) : option IloException :=
  match main_try E ord nbKids world0 with
  | (_, Ok _) => None
  | (_, Thrown e) => Some e
  end.

(** What the handler of [main] does for [e], as events. *)
Definition handled (e : IloException) : list event :=
  [EvCatch e; EvErr (TStr "exception: "); EvErr (TExc e); EvErr TEndl].

(** What a run without exception does for the solution [s]. *)
Definition completed (nbKids : Z) (s : Assignment) : list event :=
  [EvSolve; EvSolved true]
  ++ map EvOut (report (s 0%nat) (s 1%nat) (eval s (zoo_cost nbKids)))
  ++ [EvEnvEnd].

(** ** A search for the cheapest plan

    Not part of the program: an exhaustive search over the number of 40-seat
    buses, which serves to show that the model [main] builds has an optimum
    whatever [nbKids] is. *)

(** The fewest buses of [cap] seats that carry [k] kids. *)
Definition buses_for (cap k : Z) : Z := Z.max 0 ((k + cap - 1) / cap).

(** With [a] buses of 40 seats, the fewest buses of 30 seats that carry the
    rest. *)
Definition plan_with (n a : Z) : Z * Z := (a, buses_for 30 (n - 40 * a)).

Definition plan_cost (p : Z * Z) : Z := 500 * fst p + 400 * snd p.

(** The cheapest of the plans with at most [k] buses of 40 seats. *)
Fixpoint cheapest_upto (n : Z) (k : nat) : Z * Z :=
  match k with
  | O => plan_with n 0
  | S k' =>
      let p := plan_with n (Z.of_nat k) in
      let q := cheapest_upto n k' in
      if plan_cost p <? plan_cost q then p else q
  end.

Definition cheapest (n : Z) : Assignment :=
  let p := cheapest_upto n (Z.to_nat (buses_for 40 n)) in
  counts (fst p) (snd p).

(** ** Proof steps shared by the lemmas about runs

    A run is decided by the engine's answers to at most eleven calls and
    one [solve]; [run_cases_in E ord R] walks that tree in the hypothesis
    [R], normalising after each answer. *)
Ltac run_norm_in R :=
  cbv -[Z.mul Z.add Z.le fault solve_result no_solution] in R.

Ltac run_step_in E R :=
  match type of R with
  | context [fault E ?k] => destruct (fault E k) eqn:?
  | context [solve_result E ?m] => destruct (solve_result E m) eqn:?
  end.

Ltac run_cases_in E ord R :=
  destruct ord; run_norm_in R; repeat (run_step_in E R; run_norm_in R).

Lemma zoo_model_eq (n : Z) :
  zoo_model n =
  [ IloObjective Minimize (500 *: x40 +: 400 *: x30)%ilo;
    (40 *: x40 +: 30 *: x30 >=: n)%ilo ].
Proof. reflexivity. Qed.

Lemma zoo_vars_eq (n : Z) : zoo_vars n = [x40; x30].
Proof. reflexivity. Qed.

Lemma zoo_cost_eq (n : Z) : zoo_cost n = (500 *: x40 +: 400 *: x30)%ilo.
Proof. reflexivity. Qed.

Lemma feasible_zoo (n : Z) (s : Assignment) :
  feasible (zoo_model n) s = true <->
  0 <= s 0%nat /\ 0 <= s 1%nat /\ n <= 40 * s 0%nat + 30 * s 1%nat.
Proof.
  rewrite zoo_model_eq. unfold feasible, model_vars, in_domain.
  cbn [flat_map extractable_vars expr_vars app forallb holds above below
       eval var_id var_lb var_ub x40 x30 IloInfinity].
  rewrite !andb_true_r, !andb_true_iff, !Z.leb_le. lia.
Qed.

Lemma objective_zoo (n : Z) : objective (zoo_model n) = Some (Minimize, zoo_cost n).
Proof. reflexivity. Qed.

Lemma eval_zoo_cost (n : Z) (s : Assignment) :
  eval s (zoo_cost n) = 500 * s 0%nat + 400 * s 1%nat.
Proof. reflexivity. Qed.

(** Optimality in the model, in plain arithmetic. *)
Lemma optimal_zoo (n : Z) (s : Assignment) :
  optimal (zoo_model n) s <->
  (0 <= s 0%nat /\ 0 <= s 1%nat /\ n <= 40 * s 0%nat + 30 * s 1%nat) /\
  (forall a b, 0 <= a -> 0 <= b -> n <= 40 * a + 30 * b ->
               500 * s 0%nat + 400 * s 1%nat <= 500 * a + 400 * b).
Proof.
  unfold optimal. rewrite objective_zoo, feasible_zoo, eval_zoo_cost.
  split; intros [F H]; split; trivial.
  - intros a b Ha Hb Hn.
    specialize (H (counts a b)). rewrite feasible_zoo, eval_zoo_cost in H.
    apply H. cbn [counts]. lia.
  - intros s' F'. apply feasible_zoo in F'. rewrite eval_zoo_cost.
    cbn [no_worse]. apply H; lia.
Qed.

Lemma optimal_300 (s : Assignment) :
  optimal (zoo_model 300) s <-> s 0%nat = 6 /\ s 1%nat = 2.
Proof.
  rewrite optimal_zoo. split.
  - intros [F H]. specialize (H 6 2). lia.
  - intros [-> ->]. split; [lia|]. intros a b Ha Hb Hn. lia.
Qed.

Lemma optimal_0 (s : Assignment) :
  optimal (zoo_model 0) s <-> s 0%nat = 0 /\ s 1%nat = 0.
Proof.
  rewrite optimal_zoo. split.
  - intros [F H]. specialize (H 0 0). lia.
  - intros [-> ->]. split; [lia|]. intros a b Ha Hb Hn. lia.
Qed.


(** A sound engine for a model is easy to exhibit once an optimum is known. *)
Lemma answering_sound (m : IloModel) (s : Assignment) :
  optimal m s -> sound_on (answering s) m.
Proof. intros O s' [= <-]. exact O. Qed.

Lemma optimal_6_2 : optimal (zoo_model 300) (counts 6 2).
Proof. apply optimal_300. split; reflexivity. Qed.

(** ** Shapes of the runs *)

(** [main] in terms of its [try] block: either the block completes and
    [main] returns 0, or the handler runs and the exception leaves [main]. *)
Lemma run_unfold (E : Engine) (ord : EvalOrder) (n : Z) :
  run E ord n =
  match main_try E ord n world0 with
  | (w, Ok _) => {| final := w; status := Returned 0 |}
  | (w, Thrown e) =>
      {| final := {| calls := calls w; fresh := fresh w;
                     trace := trace w ++ handled e |};
         status := Terminated e |}
  end.
Proof.
  unfold run, main_body, try_catch, bind at 1.
  destruct (main_try E ord n world0) as [w [[]|e]]; [reflexivity|].
  cbn. unfold handled. now rewrite <- !app_assoc.
Qed.

(** The [try] block completes only one way. *)
Lemma main_try_ok (E : Engine) (ord : EvalOrder) (n : Z) (w : World) :
  main_try E ord n world0 = (w, Ok tt) ->
  exists s, solve_result E (zoo_model n) = Some s /\
            w = {| calls := 11; fresh := 2; trace := completed n s |}.
Proof.
  intros R. run_cases_in E ord R; try discriminate R.
  all: injection R as <-.
  all: match goal with
       | H : solve_result _ _ = Some ?a |- _ =>
           exists a; split; [exact H | reflexivity]
       end.
Qed.

(** Before an exception leaves the [try] block, the program has entered no
    handler, has not released the environment, has called [solve] at most
    once and has not written all of its report. *)
Lemma main_try_thrown (E : Engine) (ord : EvalOrder) (n : Z) (w : World) (e : IloException) :
  main_try E ord n world0 = (w, Thrown e) ->
  forallb (fun ev => negb (is_catch ev || is_end ev || is_err ev)) (trace w) = true /\
  (count is_solve (trace w) <= 1)%nat /\
  (List.length (flat_map out_of (trace w)) < 11)%nat.
Proof.
  intros R. run_cases_in E ord R; try discriminate R.
  all: injection R as <- <-; split; [reflexivity | cbn; lia].
Qed.

(** When [solve] has not returned [IloTrue], the [try] block raises, and no
    number and no [endl] has gone to [cout]. *)
Lemma main_try_unsolved (E : Engine) (ord : EvalOrder) (n : Z) (w : World) (r : Res unit) :
  main_try E ord n world0 = (w, r) ->
  existsb is_solved (trace w) = false ->
  (exists e, r = Thrown e) /\
  existsb (fun t => is_num t || is_endl t) (flat_map out_of (trace w)) = false.
Proof.
  intros R. run_cases_in E ord R.
  all: injection R as <- <-; cbn; intros U; try discriminate U.
  all: split; [eexists; reflexivity | reflexivity].
Qed.

Lemma run_completes (E : Engine) (ord : EvalOrder) (n : Z) :
  raised E ord n = None ->
  exists s, solve_result E (zoo_model n) = Some s /\
            run E ord n =
            {| final := {| calls := 11; fresh := 2; trace := completed n s |};
               status := Returned 0 |}.
Proof.
  unfold raised. rewrite run_unfold.
  destruct (main_try E ord n world0) as [w [[]|e]] eqn:R; [intros _ | discriminate].
  destruct (main_try_ok _ _ _ _ R) as (s & Hs & ->). now exists s.
Qed.

Lemma run_raises (E : Engine) (ord : EvalOrder) (n : Z) (e : IloException) :
  raised E ord n = Some e ->
  exists w, main_try E ord n world0 = (w, Thrown e) /\
            status (run E ord n) = Terminated e /\
            events (run E ord n) = trace w ++ handled e.
Proof.
  unfold raised, events. rewrite run_unfold.
  destruct (main_try E ord n world0) as [w [[]|e']] eqn:R; [discriminate | intros [= ->]].
  now exists w.
Qed.

Lemma returned_not_raised (E : Engine) (ord : EvalOrder) (n c : Z) :
  status (run E ord n) = Returned c -> raised E ord n = None.
Proof.
  destruct (raised E ord n) as [e|] eqn:R; [|reflexivity].
  destruct (run_raises _ _ _ _ R) as (w & _ & St & _). rewrite St. discriminate.
Qed.

Lemma stdout_completed (n : Z) (s : Assignment) :
  flat_map out_of (completed n s) =
  report (s 0%nat) (s 1%nat) (500 * s 0%nat + 400 * s 1%nat).
Proof. reflexivity. Qed.

Lemma stdout_handled (l : list event) (e : IloException) :
  flat_map out_of (l ++ handled e) = flat_map out_of l.
Proof. rewrite flat_map_app. cbn. apply app_nil_r. Qed.

Lemma stderr_handled (l : list event) (e : IloException) :
  forallb (fun ev => negb (is_catch ev || is_end ev || is_err ev)) l = true ->
  flat_map err_of (l ++ handled e) = [TStr "exception: "; TExc e; TEndl].
Proof.
  intros H. rewrite flat_map_app. cbn.
  replace (flat_map err_of l) with (@nil tok); [reflexivity|].
  induction l as [|ev l IH]; [reflexivity|].
  cbn in H. apply andb_true_iff in H as [Hev Hl].
  destruct ev; cbn in *; try discriminate; auto.
Qed.

(** A run that returns wrote the report of the engine's solution. *)
Lemma stdout_returned (E : Engine) (ord : EvalOrder) (n c : Z) :
  status (run E ord n) = Returned c ->
  exists s, solve_result E (zoo_model n) = Some s /\
            stdout (run E ord n) =
            report (s 0%nat) (s 1%nat) (500 * s 0%nat + 400 * s 1%nat).
Proof.
  intros St. apply returned_not_raised in St.
  destruct (run_completes _ _ _ St) as (s & Hs & R).
  exists s. split; [exact Hs|]. rewrite R. apply stdout_completed.
Qed.

(** ** The optimisation model *)

(** C1. For the fixed instance, with an engine that answers the model
    correctly, the values [solve] returns and the program prints are
    non-negative integers [a], [b] with [40*a + 30*b >= 300], and no
    non-negative [a'], [b'] with [40*a' + 30*b' >= 300] costs less. *)
Theorem solve_returns_optimum (E : Engine) (ord : EvalOrder) :
  sound_on E (zoo_model 300) ->
  status (main E ord) = Returned 0 ->
  exists a b,
    stdout (main E ord) = report a b (500 * a + 400 * b) /\
    0 <= a /\ 0 <= b /\ 300 <= 40 * a + 30 * b /\
    forall a' b', 0 <= a' -> 0 <= b' -> 300 <= 40 * a' + 30 * b' ->
                  500 * a + 400 * b <= 500 * a' + 400 * b'.
Proof.
  intros Snd St. destruct (stdout_returned _ _ _ _ St) as (s & Hs & Out).
  apply Snd, optimal_zoo in Hs. destruct Hs as [(Ha & Hb & Hn) Hmin].
  exists (s 0%nat), (s 1%nat). repeat split; assumption.
Qed.

Lemma solve_returns_optimum_witness :
  sound_on (answering (counts 6 2)) (zoo_model 300) /\
  status (main (answering (counts 6 2)) StreamFirst) = Returned 0 /\
  exists a b,
    stdout (main (answering (counts 6 2)) StreamFirst) = report a b (500 * a + 400 * b) /\
    0 <= a /\ 0 <= b /\ 300 <= 40 * a + 30 * b /\
    forall a' b', 0 <= a' -> 0 <= b' -> 300 <= 40 * a' + 30 * b' ->
                  500 * a + 400 * b <= 500 * a' + 400 * b'.
Proof.
  split; [exact (answering_sound _ _ optimal_6_2) | split; [reflexivity|]].
  apply (solve_returns_optimum (answering (counts 6 2)) StreamFirst).
  - exact (answering_sound _ _ optimal_6_2).
  - reflexivity.
Defined.

(** C2, as the specification has it: 0 buses of 40 seats and 10 of 30, at
    cost 4000, would be an optimum for 300 kids.  It is not: 6 and 2 carry
    300 kids for 3800.  Nor is 7 and 1, at 3900. *)
Lemma ten_small_buses_not_optimal :
  feasible (zoo_model 300) (counts 6 2) = true /\
  eval (counts 6 2) (zoo_cost 300) = 3800 /\
  eval (counts 0 10) (zoo_cost 300) = 4000 /\
  ~ optimal (zoo_model 300) (counts 0 10) /\
  ~ optimal (zoo_model 300) (counts 7 1).
Proof.
  repeat split; try reflexivity.
  all: intros O; apply optimal_300 in O; cbn in O; lia.
Qed.

(** C2, amended.  For 300 kids the model has one optimum: 6 buses of 40
    seats and 2 of 30, at cost 3800.  0 and 10 (cost 4000) and 7 and 1
    (cost 3900) are feasible and cost more. *)
Theorem optimum_for_300_kids :
  optimal (zoo_model 300) (counts 6 2) /\
  eval (counts 6 2) (zoo_cost 300) = 3800 /\
  (forall s, optimal (zoo_model 300) s <-> s 0%nat = 6 /\ s 1%nat = 2) /\
  (feasible (zoo_model 300) (counts 0 10) = true /\
   eval (counts 0 10) (zoo_cost 300) = 4000) /\
  (feasible (zoo_model 300) (counts 7 1) = true /\
   eval (counts 7 1) (zoo_cost 300) = 3900).
Proof.
  split; [exact optimal_6_2|]. split; [reflexivity|].
  split; [exact optimal_300|]. repeat split; reflexivity.
Qed.

(** C3. With no kids the optimum is no bus of either kind, at cost 0:
    [(0, 0)] is feasible, no feasible solution costs less than 0, and no
    other solution is optimal. *)
Theorem optimum_for_no_kids :
  feasible (zoo_model 0) (counts 0 0) = true /\
  eval (counts 0 0) (zoo_cost 0) = 0 /\
  optimal (zoo_model 0) (counts 0 0) /\
  (forall s, feasible (zoo_model 0) s = true -> 0 <= eval s (zoo_cost 0)) /\
  (forall s, optimal (zoo_model 0) s <-> s 0%nat = 0 /\ s 1%nat = 0).
Proof.
  split; [reflexivity|]. split; [reflexivity|].
  split; [apply optimal_0; split; reflexivity|].
  split; [|exact optimal_0].
  intros s F. apply feasible_zoo in F. rewrite eval_zoo_cost. lia.
Qed.

(** ** Failure paths *)

Lemma quiet_prefix (l : list event) :
  forallb (fun ev => negb (is_catch ev || is_end ev || is_err ev)) l = true ->
  count is_catch l = 0%nat /\ existsb is_end l = false /\ from_catch l = [].
Proof.
  induction l as [|ev l IH]; [now repeat split|].
  cbn. intros H. apply andb_true_iff in H as [Hev Hl].
  destruct (IH Hl) as (C & N & F).
  destruct ev; cbn in *; try discriminate; now repeat split.
Qed.

Lemma from_catch_app (l : list event) (e : IloException) (k : list event) :
  from_catch l = [] -> from_catch (l ++ EvCatch e :: k) = EvCatch e :: k.
Proof.
  induction l as [|ev l IH]; [reflexivity|].
  destruct ev; cbn; auto; discriminate.
Qed.

Lemma count_app (p : event -> bool) (l k : list event) :
  count p (l ++ k) = (count p l + count p k)%nat.
Proof. unfold count. now rewrite filter_app, length_app. Qed.

Lemma no_num_no_endl (ts : list tok) :
  existsb (fun t => is_num t || is_endl t) ts = false ->
  existsb is_num ts = false /\ existsb is_endl ts = false.
Proof.
  induction ts as [|t ts IH]; [now split|].
  cbn. intros H. apply orb_false_iff in H as [Ht Hts].
  apply orb_false_iff in Ht as [-> ->]. now apply IH.
Qed.

Lemma lines_from_no_endl (ts acc : list tok) :
  existsb is_endl ts = false -> lines_from acc ts = ([], acc ++ ts).
Proof.
  revert acc. induction ts as [|t ts IH]; intros acc H.
  - now rewrite app_nil_r.
  - cbn in H. apply orb_false_iff in H as [Ht Hts].
    destruct t; try discriminate Ht; cbn; rewrite IH by assumption;
      now rewrite <- app_assoc.
Qed.

(** A run in which [solve] did not return [IloTrue] ends in the handler,
    and neither a number nor an [endl] went to [cout]. *)
Lemma unsolved_run (E : Engine) (ord : EvalOrder) (n : Z) :
  solve_succeeded (run E ord n) = false ->
  (exists e, status (run E ord n) = Terminated e /\
             stderr (run E ord n) = [TStr "exception: "; TExc e; TEndl]) /\
  existsb (fun t => is_num t || is_endl t) (stdout (run E ord n)) = false.
Proof.
  unfold solve_succeeded, stdout, stderr, events. rewrite run_unfold.
  destruct (main_try E ord n world0) as [w [[]|e]] eqn:R; cbn [final status trace]; intros U.
  - destruct (main_try_unsolved _ _ _ _ _ R U) as [[e He] _]. discriminate He.
  - rewrite existsb_app in U. apply orb_false_iff in U as [U _].
    destruct (main_try_unsolved _ _ _ _ _ R U) as [_ Out].
    destruct (main_try_thrown _ _ _ _ _ R) as (Q & _).
    split.
    + exists e. split; [reflexivity | now apply stderr_handled].
    + now rewrite stdout_handled.
Qed.

(** C4. When [solve] fails (it throws, or it returns [IloFalse] and the
    first [getValue] throws), the program writes its message to [cerr], the
    process does not end with status 0, and no result line is written: no
    line is completed on [cout] and no number is inserted.  Result lines
    appear only in runs in which [solve] succeeded. *)
Theorem solve_failure_is_reported (E : Engine) (ord : EvalOrder) :
  (solve_failed (main E ord) = true ->
   exists e, status (main E ord) = Terminated e /\
             failure (status (main E ord)) = true /\
             stderr (main E ord) = [TStr "exception: "; TExc e; TEndl] /\
             lines (stdout (main E ord)) = [] /\
             existsb is_num (stdout (main E ord)) = false) /\
  (lines (stdout (main E ord)) <> [] -> solve_succeeded (main E ord) = true).
Proof.
  assert (G : solve_succeeded (main E ord) = false ->
              exists e, status (main E ord) = Terminated e /\
                failure (status (main E ord)) = true /\
                stderr (main E ord) = [TStr "exception: "; TExc e; TEndl] /\
                lines (stdout (main E ord)) = [] /\
                existsb is_num (stdout (main E ord)) = false).
  { unfold main. intros U. destruct (unsolved_run _ _ _ U) as [(e & St & Err) Out].
    apply no_num_no_endl in Out as [Num Endl].
    exists e. split; [exact St|]. split; [now rewrite St|]. split; [exact Err|].
    split; [|exact Num]. unfold lines. now rewrite lines_from_no_endl. }
  split.
  - unfold solve_failed. intros F. apply andb_true_iff in F as [_ F].
    apply negb_true_iff in F. now apply G.
  - intros L. destruct (solve_succeeded (main E ord)) eqn:S; [reflexivity|].
    destruct (G eq_refl) as (e & _ & _ & _ & L' & _). contradiction.
Qed.

Lemma solve_failure_is_reported_witness :
  solve_failed (main finding_none StreamFirst) = true /\
  exists e, status (main finding_none StreamFirst) = Terminated e /\
            failure (status (main finding_none StreamFirst)) = true /\
            stderr (main finding_none StreamFirst) = [TStr "exception: "; TExc e; TEndl] /\
            lines (stdout (main finding_none StreamFirst)) = [] /\
            existsb is_num (stdout (main finding_none StreamFirst)) = false.
Proof.
  split; [reflexivity|].
  apply (proj1 (solve_failure_is_reported finding_none StreamFirst)). reflexivity.
Defined.

(** C5. An exception raised anywhere in the [try] block (while the model is
    built, extracted or solved, or while the solution is read) is caught
    once, by the handler of [main]; the handler writes its diagnostic to
    [cerr] and rethrows, so the process ends in failure.  [solve] is not
    called again, and nothing goes to [cout] from the catch on. *)
Theorem exception_caught_once (E : Engine) (ord : EvalOrder) (e : IloException) :
  raised E ord 300 = Some e ->
  count is_catch (events (main E ord)) = 1%nat /\
  from_catch (events (main E ord)) = handled e /\
  stderr (main E ord) = [TStr "exception: "; TExc e; TEndl] /\
  status (main E ord) = Terminated e /\
  failure (status (main E ord)) = true /\
  (count is_solve (events (main E ord)) <= 1)%nat /\
  existsb is_out (from_catch (events (main E ord))) = false.
Proof.
  intros R. destruct (run_raises _ _ _ _ R) as (w & Rw & St & Ev).
  destruct (main_try_thrown _ _ _ _ _ Rw) as (Q & Sv & _).
  destruct (quiet_prefix _ Q) as (C & _ & F).
  assert (FC : from_catch (events (main E ord)) = handled e).
  { unfold main. rewrite Ev. now apply from_catch_app. }
  unfold main in *. rewrite FC, St. unfold stderr. rewrite Ev, !count_app, C.
  repeat split; try reflexivity.
  - now apply stderr_handled.
  - cbn. lia.
Qed.

Lemma exception_caught_once_witness :
  raised solve_throws StreamFirst 300 = Some out_of_memory /\
  count is_catch (events (main solve_throws StreamFirst)) = 1%nat /\
  from_catch (events (main solve_throws StreamFirst)) = handled out_of_memory /\
  stderr (main solve_throws StreamFirst) = [TStr "exception: "; TExc out_of_memory; TEndl] /\
  status (main solve_throws StreamFirst) = Terminated out_of_memory /\
  failure (status (main solve_throws StreamFirst)) = true /\
  (count is_solve (events (main solve_throws StreamFirst)) <= 1)%nat /\
  existsb is_out (from_catch (events (main solve_throws StreamFirst))) = false.
Proof.
  split; [reflexivity|].
  apply (exception_caught_once solve_throws StreamFirst out_of_memory).
  reflexivity.
Defined.

(** ** Release of the environment *)


(** C6, the path on which the claim fails.  When the [IloCplex] constructor
    throws, the handler logs and rethrows: [env.end()] is never called.
    The same holds when [solve] throws and when it finds no solution. *)
Theorem env_not_ended_after_exception :
  env_ended (main extract_throws StreamFirst) = false /\
  status (main extract_throws StreamFirst) = Terminated out_of_memory /\
  env_ended (main solve_throws StreamFirst) = false /\
  env_ended (main finding_none StreamFirst) = false /\
  env_ended (main (answering (counts 6 2)) StreamFirst) = true.
Proof. repeat split. Qed.

(** ** The report *)







(** ** The decision variables *)

Lemma zoo_vars_names (n : Z) : map var_name (zoo_vars n) = ["nbBus40"; "nbBus30"].
Proof. reflexivity. Qed.

(** The model mentions no variable but the two the builder declares. *)
Lemma model_vars_declared (n : Z) (x : IloIntVar) :
  In x (model_vars (zoo_model n)) <-> In x (zoo_vars n).
Proof.
  rewrite zoo_model_eq, zoo_vars_eq. cbn. tauto.
Qed.

(** C8. Each of the two variables the builder declares, [nbBus40] and
    [nbBus30], ranges over the non-negative integers: its lower bound is 0,
    it has no finite upper bound, its domain is [0 <= z], and the value it
    has in any feasible solution (so in any solution a correct engine
    attaches) is a non-negative integer. *)
Theorem variables_range_over_naturals (n : Z) (x : IloIntVar) :
  In x (zoo_vars n) ->
  var_lb x = 0 /\
  var_ub x = IloInfinity /\
  (forall z, in_domain x z = true <-> 0 <= z) /\
  In x (model_vars (zoo_model n)) /\
  (forall s, feasible (zoo_model n) s = true -> 0 <= s (var_id x)) /\
  (forall E s, sound_on E (zoo_model n) ->
               solve_result E (zoo_model n) = Some s -> 0 <= s (var_id x)).
Proof.
  intros Hx.
  assert (F : forall s, feasible (zoo_model n) s = true -> 0 <= s (var_id x)).
  { intros s Fs. apply feasible_zoo in Fs. rewrite zoo_vars_eq in Hx.
    destruct Hx as [<- | [<- | []]]; cbn; tauto. }
  assert (D : var_lb x = 0 /\ var_ub x = IloInfinity).
  { rewrite zoo_vars_eq in Hx. destruct Hx as [<- | [<- | []]]; now split. }
  destruct D as [L U]. split; [exact L|]. split; [exact U|]. split.
  { intros z. unfold in_domain. rewrite L, U. cbn [below IloInfinity].
    rewrite andb_true_r. apply Z.leb_le. }
  split; [now apply model_vars_declared|]. split; [exact F|].
  intros E s Snd Hs. apply F. now destruct (Snd s Hs).
Qed.

Lemma variables_range_over_naturals_witness :
  In x40 (zoo_vars 300) /\
  var_lb x40 = 0 /\
  var_ub x40 = IloInfinity /\
  (forall z, in_domain x40 z = true <-> 0 <= z) /\
  In x40 (model_vars (zoo_model 300)) /\
  (forall s, feasible (zoo_model 300) s = true -> 0 <= s (var_id x40)) /\
  (forall E s, sound_on E (zoo_model 300) ->
               solve_result E (zoo_model 300) = Some s -> 0 <= s (var_id x40)).
Proof.
  split; [left; reflexivity|].
  apply (variables_range_over_naturals 300 x40). left; reflexivity.
Defined.

(** ** The model for any number of kids *)

Lemma buses_for_carry (cap k : Z) :
  0 < cap -> 0 <= buses_for cap k /\ k <= cap * buses_for cap k.
Proof.
  intros Hc. unfold buses_for.
  pose proof (Z.div_mod (k + cap - 1) cap) as D.
  pose proof (Z.mod_pos_bound (k + cap - 1) cap Hc) as B.
  nia.
Qed.

Lemma buses_for_least (cap k b : Z) :
  0 < cap -> 0 <= b -> k <= cap * b -> buses_for cap k <= b.
Proof.
  intros Hc Hb Hk. unfold buses_for.
  pose proof (Z.div_mod (k + cap - 1) cap) as D.
  pose proof (Z.mod_pos_bound (k + cap - 1) cap Hc) as B.
  nia.
Qed.

Lemma buses_for_none (cap k : Z) : 0 < cap -> k <= 0 -> buses_for cap k = 0.
Proof.
  intros Hc Hk. pose proof (buses_for_carry cap k Hc) as [L _].
  pose proof (buses_for_least cap k 0 Hc). lia.
Qed.

Lemma cheapest_upto_is_plan (n : Z) (k : nat) :
  exists a, 0 <= a <= Z.of_nat k /\ cheapest_upto n k = plan_with n a.
Proof.
  induction k as [|k (a & Ha & IH)].
  - exists 0. cbn. split; [lia | reflexivity].
  - cbn [cheapest_upto].
    destruct (plan_cost (plan_with n (Z.of_nat (S k))) <? plan_cost (cheapest_upto n k)).
    + exists (Z.of_nat (S k)). split; [lia | reflexivity].
    + exists a. split; [lia | exact IH].
Qed.

Lemma cheapest_upto_least (n : Z) (k : nat) (a : Z) :
  0 <= a <= Z.of_nat k ->
  plan_cost (cheapest_upto n k) <= plan_cost (plan_with n a).
Proof.
  induction k as [|k IH]; intros Ha.
  - assert (a = 0) as -> by lia. cbn. lia.
  - cbn [cheapest_upto].
    destruct (Z.ltb_spec (plan_cost (plan_with n (Z.of_nat (S k))))
                         (plan_cost (cheapest_upto n k))) as [Lt | Ge].
    + destruct (Z.eq_dec a (Z.of_nat (S k))) as [-> | Ne]; [lia|].
      assert (plan_cost (cheapest_upto n k) <= plan_cost (plan_with n a))
        by (apply IH; lia).
      lia.
    + destruct (Z.eq_dec a (Z.of_nat (S k))) as [-> | Ne]; [lia|].
      apply IH. lia.
Qed.

Lemma cheapest_optimal (n : Z) : optimal (zoo_model n) (cheapest n).
Proof.
  apply optimal_zoo.
  set (A := buses_for 40 n).
  set (p := cheapest_upto n (Z.to_nat A)).
  change (cheapest n 0%nat) with (fst p). change (cheapest n 1%nat) with (snd p).
  destruct (cheapest_upto_is_plan n (Z.to_nat A)) as (a & Ha & Eq). fold p in Eq.
  pose proof (cheapest_upto_least n (Z.to_nat A)) as Least. fold p in Least.
  assert (H40 : 0 < 40) by lia. assert (H30 : 0 < 30) by lia.
  pose proof (buses_for_carry 40 n H40) as [A0 An]. fold A in A0, An.
  pose proof (buses_for_carry 30 (n - 40 * a) H30) as [B0 Bn].
  clearbody p. subst p. unfold plan_cost at 1 in Least.
  cbn [plan_with fst snd] in *.
  split; [lia|].
  intros a' b' Ha' Hb' Hn.
  destruct (Z.le_gt_cases a' A) as [Le | Gt].
  - assert (L : 500 * a + 400 * buses_for 30 (n - 40 * a)
                 <= plan_cost (plan_with n a')) by (apply Least; lia).
    assert (Lb : buses_for 30 (n - 40 * a') <= b')
      by (apply buses_for_least; lia).
    unfold plan_cost in L. cbn [plan_with fst snd] in L. lia.
  - assert (L : 500 * a + 400 * buses_for 30 (n - 40 * a)
                 <= plan_cost (plan_with n A)) by (apply Least; lia).
    unfold plan_cost in L. cbn [plan_with fst snd] in L.
    rewrite (buses_for_none 30 (n - 40 * A)) in L by lia. lia.
Qed.

(** X7. Whatever [nbKids] is, the model [main] builds has an optimal
    solution: it is neither infeasible nor unbounded.  The optimum costs at
    least 12.5 per kid and at most what 40-seat buses alone would cost. *)
Theorem model_always_solvable (n : Z) :
  exists s, optimal (zoo_model n) s /\
            25 * n <= 2 * eval s (zoo_cost n) /\
            eval s (zoo_cost n) <= 500 * Z.max 0 ((n + 39) / 40).
Proof.
  exists (cheapest n). pose proof (cheapest_optimal n) as O.
  split; [exact O|]. rewrite eval_zoo_cost.
  apply optimal_zoo in O. destruct O as [(Ha & Hb & Hn) Min].
  split; [lia|].
  assert (H40 : 0 < 40) by lia.
  pose proof (buses_for_carry 40 n H40) as [A0 An].
  specialize (Min (buses_for 40 n) 0 A0 ltac:(lia) ltac:(lia)).
  unfold buses_for in Min. replace (n + 40 - 1) with (n + 39) in Min by lia. lia.
Qed.

(** X8. With no kids, or a negative [nbKids], the only optimal solution of
    the model is to use no bus. *)
Theorem no_bus_without_kids (n : Z) (s : Assignment) :
  n <= 0 ->
  (optimal (zoo_model n) s <-> s 0%nat = 0 /\ s 1%nat = 0).
Proof.
  intros Hn. rewrite optimal_zoo. split.
  - intros [F H]. specialize (H 0 0). lia.
  - intros [-> ->]. split; [lia|]. intros a b Ha Hb _. lia.
Qed.

Lemma no_bus_without_kids_witness :
  -5 <= 0 /\
  (optimal (zoo_model (-5)) (counts 0 0) <-> counts 0 0 0%nat = 0 /\ counts 0 0 1%nat = 0).
Proof.
  split; [lia|]. apply (no_bus_without_kids (-5) (counts 0 0)). lia.
Defined.

(** X9. More kids never cost less: an optimal solution for [n'] kids costs
    at least as much as an optimal solution for [n <= n'] kids. *)
Theorem more_kids_cost_no_less (n n' : Z) (s s' : Assignment) :
  n <= n' ->
  optimal (zoo_model n) s ->
  optimal (zoo_model n') s' ->
  eval s (zoo_cost n) <= eval s' (zoo_cost n').
Proof.
  intros Le O O'. rewrite !eval_zoo_cost.
  apply optimal_zoo in O, O'. destruct O as [_ Min], O' as [(Ha & Hb & Hn) _].
  apply Min; lia.
Qed.

Lemma more_kids_cost_no_less_witness :
  0 <= 300 /\
  optimal (zoo_model 0) (counts 0 0) /\
  optimal (zoo_model 300) (counts 6 2) /\
  eval (counts 0 0) (zoo_cost 0) <= eval (counts 6 2) (zoo_cost 300).
Proof.
  assert (O0 : optimal (zoo_model 0) (counts 0 0))
    by (apply optimal_0; split; reflexivity).
  split; [lia|]. split; [exact O0|]. split; [exact optimal_6_2|].
  apply (more_kids_cost_no_less 0 300 (counts 0 0) (counts 6 2)).
  - lia.
  - exact O0.
  - exact optimal_6_2.
Defined.

(** ** The builder under any engine *)



(** ** More on the runs *)








(** X4. The order in which the compiler evaluates the operands of the
    output statements changes little: the exit status, what goes to [cerr],
    the library calls made, the release of the environment and the
    completed lines on [cout] are the same either way.  Only the prefix of
    the line being written when a [getValue] throws, ["Use "] or
    ["Total cost: "], is on [cout] in one order and not in the other. *)
Theorem evaluation_order_moves_a_prefix (E : Engine) :
  status (main E StreamFirst) = status (main E OperandFirst) /\
  stderr (main E StreamFirst) = stderr (main E OperandFirst) /\
  calls (final (main E StreamFirst)) = calls (final (main E OperandFirst)) /\
  env_ended (main E StreamFirst) = env_ended (main E OperandFirst) /\
  lines (stdout (main E StreamFirst)) = lines (stdout (main E OperandFirst)) /\
  exists rest,
    stdout (main E StreamFirst) = stdout (main E OperandFirst) ++ rest /\
    (rest = [] \/ rest = [TStr "Use "] \/ rest = [TStr "Total cost: "]).
Proof.
  unfold main, stdout, stderr, env_ended, events. rewrite !run_unfold.
  destruct (main_try E StreamFirst 300 world0) as [w1 r1] eqn:R1.
  destruct (main_try E OperandFirst 300 world0) as [w2 r2] eqn:R2.
  assert (R : (main_try E StreamFirst 300 world0, main_try E OperandFirst 300 world0)
              = ((w1, r1), (w2, r2))) by now rewrite R1, R2.
  clear R1 R2. run_norm_in R. repeat (run_step_in E R; run_norm_in R).
  all: injection R as <- <- <- <-.
  all: repeat (split; [reflexivity|]).
  all: eexists; split; [cbn; reflexivity | tauto].
Qed.

